(** * The RSVP bot of src/bot.ts: validators, question flows and dispatcher

    A shallow embedding of the class [EchoBot].  JavaScript values are an
    inductive type, objects used as property bags are finite maps, the
    conversation-flow object and the user profile object live in an explicit
    store so that mutation through a reference and rebinding of a local name
    are told apart, and every [sendActivity] call appends to the list of
    outbound activities of the turn. *)

From Stdlib Require Import Ascii.
From stdpp Require Import gmap strings list pretty.

Open Scope Z_scope.

(** ** JavaScript values *)

(** What [context.activity.text] can be: a string, or [undefined] / [null] on
    an activity that carries no text.  The flow counters of the conversation
    object hold values of the same shape. *)
Inductive text :=
| undefined
| null
| str (s : string).

(** Property values of the plain objects of the program (the profile, the
    [resolution] dictionary of a recognizer result): the above, or a number.
    The only numbers the program stores are results of [parseInt] that passed
    the range test, hence integers. *)
Inductive value :=
| Prim (t : text)
| Num (n : Z).

Coercion Prim : text >-> value.

#[global] Instance text_eq_dec : EqDecision text.
Proof. solve_decision. Defined.

#[global] Instance value_eq_dec : EqDecision value.
Proof. solve_decision. Defined.

(** A plain object: property name to value. *)
Abbreviation obj := (gmap string value).

(** [o.k]: reading a missing property gives [undefined]. *)
Definition prop (o : obj) (k : string) : value :=
  default (Prim undefined) (o !! k).

(** ToBoolean, as used by [&&], [||] and [if]. *)
Definition truthy_text (t : text) : bool :=
  match t with
  | undefined | null => false
  | str s => negb (bool_decide (s = EmptyString))
  end.

Definition truthy (v : value) : bool :=
  match v with
  | Prim t => truthy_text t
  | Num n => negb (n =? 0)
  end.

(** ToString, as used by template literals and by [parseInt]. *)
Definition ToString (v : value) : string :=
  match v with
  | Prim undefined => "undefined"
  | Prim null => "null"
  | Prim (str s) => s
  | Num n => pretty n
  end.

(** ** Strings *)

(** Strings are sequences of 8-bit code units; the white space and line
    terminator code units of that range are TAB, LF, VT, FF, CR, SP and
    NBSP. *)
Definition is_white_space (c : ascii) : bool :=
  bool_decide (nat_of_ascii c ∈ [9; 10; 11; 12; 13; 32; 160]%nat).

Fixpoint trimStart (s : string) : string :=
  match s with
  | EmptyString => EmptyString
  | String c s' => if is_white_space c then trimStart s' else s
  end.

Fixpoint trimEnd (s : string) : string :=
  match s with
  | EmptyString => EmptyString
  | String c s' =>
      match trimEnd s' with
      | EmptyString => if is_white_space c then EmptyString else String c EmptyString
      | t => String c t
      end
  end.

(** [String.prototype.trim] *)
Definition trim (s : string) : string := trimEnd (trimStart s).

(** The value of a code unit as a digit in radix [R], if it is one. *)
Definition digit_of (R : Z) (c : ascii) : option Z :=
  let n := Z.of_nat (nat_of_ascii c) in
  let d := if (48 <=? n) && (n <=? 57) then Some (n - 48)
           else if (97 <=? n) && (n <=? 122) then Some (n - 87)
           else if (65 <=? n) && (n <=? 90) then Some (n - 55)
           else None in
  d ≫= λ d, if d <? R then Some d else None.

(** The longest prefix of radix-[R] digits, as a number; [acc] is [None] while
    no digit has been read. *)
Fixpoint parse_digits (R : Z) (s : string) (acc : option Z) : option Z :=
  match s with
  | EmptyString => acc
  | String c s' =>
      match digit_of R c with
      | Some d => parse_digits R s' (Some (R * default 0 acc + d))
      | None => acc
      end
  end.

(** [parseInt(s)] without a radix argument; [None] is NaN. *)
Definition parseInt (s : string) : option Z :=
  let s1 := trimStart s in
  let '(sign, s2) :=
    match s1 with
    | String "-"%char s' => (-1, s')
    | String "+"%char s' => (1, s')
    | _ => (1, s1)
    end in
  let '(R, s3) :=
    match s2 with
    | String "0"%char (String "x"%char s')
    | String "0"%char (String "X"%char s') => (16, s')
    | _ => (10, s2)
    end in
  (λ n, sign * n) <$> parse_digits R s3 None.

(** ** The string enumerations of the program *)

Module question.
Definition none : text := str "NONE".
Definition age : text := str "AGE".
Definition name : text := str "NAME".
Definition school : text := str "SCHOOL".
End question.

Module action.
Definition none : text := str "NONE".
Definition rsvp : text := str "RSVP".
Definition cancel : text := str "Cancel RSVP".
Definition friend : text := str "Invite a friend".
End action.

Module friendQuestion.
Definition none : text := str "NONE".
Definition name : text := str "NAME".
Definition email : text := str "EMAIL".
End friendQuestion.

Module cancelQuestion.
Definition none : text := str "NONE".
Definition name : text := str "NAME".
End cancelQuestion.

(** ** Validators *)

(** The object a validator returns: [{ success: true, <field>: a }] or
    [{ success: false, message }]. *)
Inductive validation (A : Type) :=
| Success (a : A)
| Failure (message : string).

Arguments Success {A} a.
Arguments Failure {A} message.

Definition success {A} (r : validation A) : bool :=
  match r with Success _ => true | Failure _ => false end.

(** [input && input.trim()], then the test [string !== undefined]. *)
Definition validateString (input : text) : validation text :=
  let string :=
    if truthy_text input
    then match input with str s => str (trim s) | _ => input end
    else input in
  if bool_decide (string ≠ undefined)
  then Success string
  else Failure "Please enter a name that contains at least one character.".

(** *** The number recognizer

    [recognizeNumber] of the recognizers-text suite is an external library.
    It either throws or returns a list of results; each result carries a
    [resolution] dictionary whose ["value"] entry holds the processed
    string. *)
Record ModelResult := { resolution : obj }.

Inductive recognized :=
| Throws
| Returns (results : list ModelResult).

(** The body of the [forEach] callback: [output] is the variable of the
    enclosing function, and the callback's [return] only ends the callback. *)
Definition forEach_callback (output : option Z) (result : ModelResult) : option Z :=
  let value := prop (resolution result) "value" in
  if truthy value then
    match parseInt (ToString value) with
    | Some age => if (18 <=? age) && (age <=? 120) then Some age else output
    | None => output
    end
  else output.

Section Validators.
Variable recognizeNumber : text → recognized.

Definition validateAge (input : text) : validation Z :=
  match recognizeNumber input with
  | Returns results =>
      match foldl forEach_callback None results with
      | Some age => Success age
      | None => Failure "Please enter an age between 18 and 120."
      end
  | Throws =>
      Failure "I'm sorry, I could not interpret that as an age. Please enter an age between 18 and 120."
  end.
End Validators.

(** ** Outbound activities *)

Record CardAction := { card_type : string; card_title : string; card_value : text }.

Inductive Attachment :=
| File (name contentType contentUrl : string)
| heroCard (title : string) (buttons : list CardAction) (text : string).

(** What is handed to [sendActivity]: a string, or a reply object of type
    message with an optional text and attachments. *)
Inductive Activity :=
| Message (text : string)
| Reply (text : text) (attachments : list Attachment).

Definition getInternetAttachment : Attachment :=
  File "architecture-resize.png" "image/png"
       "https://docs.microsoft.com/en-us/bot-framework/media/how-it-works/architecture-resize.png".

(** ** The conversation flow object, the store and the turn monad *)

Module flow.
Record t := mk {
  lastQuestionAsked : text;
  lastQuestionFriend : text;
  lastQuestionCancel : text;
  action : text
}.
End flow.

(** References to plain objects of the store. *)
Definition ref := nat.

(** The state a handler runs in.  The conversation object [flow] is passed to
    every handler and only ever mutated through its fields, so the single
    object is kept as [flow_of].  Profile objects live in [heap] and are
    reached through references, because a handler both writes fields of the
    object it was given and rebinds its parameter to a new object.  [sent]
    lists the arguments of the [sendActivity] calls in call order. *)
Record state := State {
  flow_of : flow.t;
  heap : list obj;
  sent : list Activity
}.

Definition M (A : Type) : Type := state → A * state.

#[global] Instance M_ret : MRet M := λ A a st, (a, st).
#[global] Instance M_bind : MBind M :=
  λ A B f m st, let '(a, st') := m st in f a st'.

Definition sendActivity (a : Activity) : M unit :=
  λ st, (tt, State (flow_of st) (heap st) (sent st ++ [a])).

Definition get_flow : M flow.t := λ st, (flow_of st, st).

Definition put_flow (fl : flow.t) : M unit :=
  λ st, (tt, State fl (heap st) (sent st)).

(** [flow.lastQuestionAsked = v] and its siblings *)
Definition set_lastQuestionAsked (v : text) : M unit :=
  fl ← get_flow;
  put_flow (flow.mk v (flow.lastQuestionFriend fl) (flow.lastQuestionCancel fl) (flow.action fl)).

Definition set_lastQuestionFriend (v : text) : M unit :=
  fl ← get_flow;
  put_flow (flow.mk (flow.lastQuestionAsked fl) v (flow.lastQuestionCancel fl) (flow.action fl)).

Definition set_lastQuestionCancel (v : text) : M unit :=
  fl ← get_flow;
  put_flow (flow.mk (flow.lastQuestionAsked fl) (flow.lastQuestionFriend fl) v (flow.action fl)).

Definition set_action (v : text) : M unit :=
  fl ← get_flow;
  put_flow (flow.mk (flow.lastQuestionAsked fl) (flow.lastQuestionFriend fl) (flow.lastQuestionCancel fl) v).

(** [{}]: a new empty object. *)
Definition new_object : M ref :=
  λ st, (length (heap st), State (flow_of st) (heap st ++ [∅]) (sent st)).

(** [r.k = v].  A reference always designates an object of the store: it
    was handed in by the caller or returned by [new_object]. *)
Definition set_prop (r : ref) (k : string) (v : value) : M unit :=
  λ st, (tt, State (flow_of st) (alter (<[k := v]>) r (heap st)) (sent st)).

(** [r.k] *)
Definition get_prop (r : ref) (k : string) : M value :=
  λ st, (from_option (λ o, prop o k) (Prim undefined) (heap st !! r), st).

(** [message || fallback] on strings *)
Definition or_else (message fallback : string) : string :=
  if bool_decide (message = EmptyString) then fallback else message.

Definition dont_understand : string := "I'm sorry, I didn't understand that.".

(** The reply object built by [sendHeroCard]. *)
Definition heroCardReply : Activity :=
  let buttons :=
    [ {| card_type := "imBack"; card_title := "1. RSVP"; card_value := action.rsvp |};
      {| card_type := "imBack"; card_title := "2. Cancel RSVP"; card_value := action.cancel |};
      {| card_type := "imBack"; card_title := "3. Invite a friend"; card_value := action.friend |} ] in
  let card := heroCard EmptyString buttons "What do you want to do ?" in
  Reply undefined [card].

Definition sendHeroCard : M unit := sendActivity heroCardReply.

(** ** The three question flows and the message handler *)

Section Bot.
Variable recognizeNumber : text → recognized.

(** The parameter [flow] of the source is the conversation object of the
    state; [profile] is the reference the caller passed; [input] is
    [turnContext.activity.text]. *)
Definition fillOutRSVP (profile : ref) (input : text) : M unit :=
  fl ← get_flow;
  let q := flow.lastQuestionAsked fl in
  if decide (q = question.none) then
    sendActivity (Message "In order to RSVP you need to give out some information. What is your name?");;
    set_lastQuestionAsked question.name
  else if decide (q = question.name) then
    match validateString input with
    | Success string =>
        set_prop profile "name" string;;
        name ← get_prop profile "name";
        sendActivity (Message ("Welcome among us " +:+ ToString name +:+ "."));;
        sendActivity (Message "How old are you?");;
        set_lastQuestionAsked question.age
    | Failure message =>
        sendActivity (Message (or_else message dont_understand))
    end
  else if decide (q = question.age) then
    match validateAge recognizeNumber input with
    | Success age =>
        set_prop profile "age" (Num age);;
        age ← get_prop profile "age";
        sendActivity (Message ("I have your age as " +:+ ToString age +:+ "."));;
        sendActivity (Message "What university are you from?");;
        set_lastQuestionAsked question.school
    | Failure message =>
        sendActivity (Message (or_else message dont_understand))
    end
  else if decide (q = question.school) then
    match validateString input with
    | Success string =>
        set_prop profile "school" string;;
        school ← get_prop profile "school";
        (if decide (school = Prim (str "Stanford")) then
           sendActivity (Message "I'm sorry, students from Stanford are not accepted. Nobody's perfect but it is still time to apply to Berkeley next year following this link: https://grad.berkeley.edu/admissions/apply/")
         else
           sendActivity (Message ("Amazing, so many people coming from " +:+ ToString school +:+ "."));;
           sendActivity (Reply (str "You can already take a look at the documentation here: https://docs.microsoft.com/en-us/azure/bot-service/bot-service-debug-emulator?view=azure-bot-service-4.0")
                               [getInternetAttachment]);;
           name ← get_prop profile "name";
           sendActivity (Message ("Thanks for completing the RSVP " +:+ ToString name +:+ ".")));;
        set_lastQuestionAsked question.none;;
        set_action action.none;;
        (* profile = {} : the parameter is rebound to a new object *)
        profile ← new_object;
        sendHeroCard
    | Failure message =>
        sendActivity (Message (or_else message dont_understand))
    end
  else mret tt.

Definition fillOutFriend (profile : ref) (input : text) : M unit :=
  fl ← get_flow;
  let q := flow.lastQuestionFriend fl in
  if decide (q = friendQuestion.none) then
    sendActivity (Message "What is the name of your friend?");;
    set_lastQuestionFriend friendQuestion.name
  else if decide (q = friendQuestion.name) then
    match validateString input with
    | Success string =>
        set_prop profile "firenName" string;;
        sendActivity (Message "Great! What is your email address?");;
        set_lastQuestionFriend friendQuestion.email
    | Failure message =>
        sendActivity (Message (or_else message dont_understand))
    end
  else if decide (q = friendQuestion.email) then
    match validateString input with
    | Success string =>
        set_prop profile "email" string;;
        sendActivity (Message "Great, we'll have a lot of fun!");;
        sendActivity (Message "An email to v-dalhay@microsoft.com has been sent. You'll receive a response by email within 24 hours.");;
        set_lastQuestionFriend question.none;;
        set_action action.none;;
        (* profile = {} *)
        profile ← new_object;
        sendHeroCard
    | Failure message =>
        sendActivity (Message (or_else message dont_understand))
    end
  else mret tt.

Definition cancelRSVP (profile : ref) (input : text) : M unit :=
  fl ← get_flow;
  let q := flow.lastQuestionCancel fl in
  if decide (q = cancelQuestion.none) then
    sendActivity (Message "What is your name to cancel your participation?");;
    set_lastQuestionCancel cancelQuestion.name
  else if decide (q = cancelQuestion.name) then
    match validateString input with
    | Success string =>
        set_prop profile "cancelName" string;;
        sendActivity (Message "Ok, let's cancel!");;
        set_lastQuestionCancel question.none;;
        set_action action.none;;
        (* profile = {} *)
        profile ← new_object;
        sendHeroCard
    | Failure message =>
        sendActivity (Message (or_else message dont_understand))
    end
  else mret tt.

(** [new Set([action.rsvp, action.cancel, action.friend])] *)
Definition actions : list text := [action.rsvp; action.cancel; action.friend].

Definition conflict : string :=
  "You need to finish the current action before doing another one!".

(** The [onMessage] handler, after the two state accessors returned the
    conversation object and the profile object.  The first step yields
    [false] where the source returns early.  The [console.log] calls and the
    calls of [next] touch neither object and send nothing. *)
Definition onMessage (profile : ref) (text : text) : M unit :=
  fl ← get_flow;
  proceed ←
    (if bool_decide (text ∈ actions) then
       if decide (flow.action fl = action.none) then
         set_action text;; mret true
       else
         sendActivity (Message conflict);; mret false
     else mret true);
  if proceed : bool then
    fl ← get_flow;
    let a := flow.action fl in
    if decide (a = action.rsvp) then fillOutRSVP profile text
    else if decide (a = action.cancel) then cancelRSVP profile text
    else if decide (a = action.friend) then fillOutFriend profile text
    else mret tt
  else mret tt.
End Bot.

(** The default conversation object of the accessor. *)
Definition default_flow : flow.t :=
  flow.mk question.none friendQuestion.none cancelQuestion.none action.none.

(** ** A turn as the caller sees it

    The state accessors hand out the stored conversation object and the
    stored profile object; after the handler, [saveChanges] persists those
    same two objects.  [turn] runs a handler on a store that holds the
    caller's profile object at reference 0 and returns the conversation
    object, the caller's profile object and the activities sent. *)
Record outcome := Outcome {
  out_flow : flow.t;
  out_profile : obj;
  out_sent : list Activity
}.

Definition turn (handler : ref → text → M unit)
    (fl : flow.t) (profile : obj) (input : text) : outcome :=
  let st := (handler 0%nat input (State fl [profile] [])).2 in
  Outcome (flow_of st) (default ∅ (heap st !! 0%nat)) (sent st).

(** The same input sent [n] times in a row: the state after the last turn and
    the activities of each turn. *)
Fixpoint repeat_turn (handler : ref → text → M unit) (n : nat)
    (fl : flow.t) (profile : obj) (input : text) : flow.t * obj * list (list Activity) :=
  match n with
  | O => (fl, profile, [])
  | S n' =>
      let o := turn handler fl profile input in
      let '(fl', profile', outs) := repeat_turn handler n' (out_flow o) (out_profile o) input in
      (fl', profile', out_sent o :: outs)
  end.

(** ** Stand-ins for the external recognizer

    The recognizer is a parameter of the development.  These two stand-ins
    fix its answer, to run the model on concrete inputs. *)

(** A result whose [resolution.value] is the string [s]. *)
Definition candidate (s : string) : ModelResult :=
  {| resolution := {[ "value" := Prim (str s) ]} |}.

Definition recognizes (results : list ModelResult) : text → recognized :=
  λ _, Returns results.

Definition recognizer_throws : text → recognized := λ _, Throws.

(** A result qualifies with [age] when it passes the three tests of the
    callback: a truthy value, that parses, within the range. *)
Definition qualifies (result : ModelResult) (age : Z) : Prop :=
  let value := prop (resolution result) "value" in
  truthy value = true ∧ parseInt (ToString value) = Some age ∧ 18 ≤ age ≤ 120.

(** ** The questions of the three flows

    The cases of the three [switch] statements, tabulated: the handler and
    the counter of each flow, the question a counter value selects (none for
    [NONE] and for a value no case matches), and for each question the
    profile field its case writes and the validator its case runs. *)

Inductive flow_type := Rsvp | Friend | Cancel.

Inductive asked :=
| RsvpName | RsvpAge | RsvpSchool
| FriendName | FriendEmail
| CancelName.

Definition counter (ft : flow_type) (fl : flow.t) : text :=
  match ft with
  | Rsvp => flow.lastQuestionAsked fl
  | Friend => flow.lastQuestionFriend fl
  | Cancel => flow.lastQuestionCancel fl
  end.

Definition question_of (ft : flow_type) (fl : flow.t) : option asked :=
  let q := counter ft fl in
  match ft with
  | Rsvp =>
      if decide (q = question.name) then Some RsvpName
      else if decide (q = question.age) then Some RsvpAge
      else if decide (q = question.school) then Some RsvpSchool
      else None
  | Friend =>
      if decide (q = friendQuestion.name) then Some FriendName
      else if decide (q = friendQuestion.email) then Some FriendEmail
      else None
  | Cancel =>
      if decide (q = cancelQuestion.name) then Some CancelName
      else None
  end.

Definition field_of (k : asked) : string :=
  match k with
  | RsvpName => "name"
  | RsvpAge => "age"
  | RsvpSchool => "school"
  | FriendName => "firenName"
  | FriendEmail => "email"
  | CancelName => "cancelName"
  end.

Definition validation_map {A B} (f : A → B) (r : validation A) : validation B :=
  match r with
  | Success a => Success (f a)
  | Failure m => Failure m
  end.

Section Questions.
Variable recognizeNumber : text → recognized.

Definition handler (ft : flow_type) : ref → text → M unit :=
  match ft with
  | Rsvp => fillOutRSVP recognizeNumber
  | Friend => fillOutFriend
  | Cancel => cancelRSVP
  end.

(** What the validator of question [k] returns on [input], as the value
    the case would store. *)
Definition answer (k : asked) (input : text) : validation value :=
  match k with
  | RsvpAge => validation_map Num (validateAge recognizeNumber input)
  | _ => validation_map Prim (validateString input)
  end.
End Questions.

(** ** The conversation object along a flow

    Pure counterparts of the assignments to the conversation object, to
    state where a turn leaves it. *)

Definition with_action (a : text) (fl : flow.t) : flow.t :=
  flow.mk (flow.lastQuestionAsked fl) (flow.lastQuestionFriend fl)
          (flow.lastQuestionCancel fl) a.

Definition set_counter (ft : flow_type) (v : text) (fl : flow.t) : flow.t :=
  match ft with
  | Rsvp => flow.mk v (flow.lastQuestionFriend fl) (flow.lastQuestionCancel fl) (flow.action fl)
  | Friend => flow.mk (flow.lastQuestionAsked fl) v (flow.lastQuestionCancel fl) (flow.action fl)
  | Cancel => flow.mk (flow.lastQuestionAsked fl) (flow.lastQuestionFriend fl) v (flow.action fl)
  end.

(** The label that selects a flow, and the flow the [switch] of the message
    handler selects for a conversation object. *)
Definition label_of (ft : flow_type) : text :=
  match ft with
  | Rsvp => action.rsvp
  | Friend => action.friend
  | Cancel => action.cancel
  end.

Definition active_flow (fl : flow.t) : option flow_type :=
  let a := flow.action fl in
  if decide (a = action.rsvp) then Some Rsvp
  else if decide (a = action.cancel) then Some Cancel
  else if decide (a = action.friend) then Some Friend
  else None.

(** The flow a question belongs to, and the assignments its success branch
    makes to the conversation object. *)
Definition flow_of_question (k : asked) : flow_type :=
  match k with
  | RsvpName | RsvpAge | RsvpSchool => Rsvp
  | FriendName | FriendEmail => Friend
  | CancelName => Cancel
  end.

Definition next_flow (k : asked) (fl : flow.t) : flow.t :=
  match k with
  | RsvpName => set_counter Rsvp question.age fl
  | RsvpAge => set_counter Rsvp question.school fl
  | RsvpSchool => with_action action.none (set_counter Rsvp question.none fl)
  | FriendName => set_counter Friend friendQuestion.email fl
  | FriendEmail => with_action action.none (set_counter Friend question.none fl)
  | CancelName => with_action action.none (set_counter Cancel question.none fl)
  end.

(** A conversation object in which at most one flow is under way: either no
    action is active and every counter is [NONE], or one action is active,
    its counter is at one of its questions and the other two are [NONE]. *)
Definition consistent (fl : flow.t) : Prop :=
  fl = default_flow ∨
  ∃ ft k, flow.action fl = label_of ft ∧ question_of ft fl = Some k ∧
          ∀ ft', ft' ≠ ft → counter ft' fl = str "NONE".

(** Successive turns of one conversation: each turn starts from the
    conversation object and the profile the previous one left, and the
    activities accumulate. *)
Fixpoint converse (handler : ref → text → M unit)
    (fl : flow.t) (profile : obj) (inputs : list text) : outcome :=
  match inputs with
  | [] => Outcome fl profile []
  | input :: rest =>
      let o := turn handler fl profile input in
      let o' := converse handler (out_flow o) (out_profile o) rest in
      Outcome (out_flow o') (out_profile o') (out_sent o ++ out_sent o')
  end.

(** ** New participants *)

Module ChannelAccount.
Record t := mk { id : string }.
End ChannelAccount.

(** [for (const x of l) body] *)
Fixpoint for_of {A} (l : list A) (body : A → M unit) : M unit :=
  match l with
  | [] => mret tt
  | x :: l' => body x;; for_of l' body
  end.

(** The [onMembersAdded] handler; [recipient] is
    [context.activity.recipient], the bot itself. *)
Definition onMembersAdded (membersAdded : list ChannelAccount.t)
    (recipient : ChannelAccount.t) : M unit :=
  for_of membersAdded (λ member,
    if decide (ChannelAccount.id member ≠ ChannelAccount.id recipient) then
      sendActivity (Message "Welcome at the 2020 Microsoft AI Hackathon!");;
      sendHeroCard
    else mret tt).

(** What [onMembersAdded] sends for a list of new members: the welcome and
    the menu for each member other than the bot, in the order of the list. *)
Definition greetings (membersAdded : list ChannelAccount.t)
    (recipient : ChannelAccount.t) : list Activity :=
  flat_map (λ member,
    if decide (ChannelAccount.id member ≠ ChannelAccount.id recipient)
    then [Message "Welcome at the 2020 Microsoft AI Hackathon!"; heroCardReply]
    else []) membersAdded.

(** * Properties *)

(** ** The text validator *)

Lemma validateString_str s : validateString (str s) = Success (str (trim s)).
Proof.
  unfold validateString, truthy_text.
  destruct (decide (s = EmptyString)) as [->|Hne]; [reflexivity|].
  rewrite (bool_decide_eq_false_2 (s = EmptyString)) by done. reflexivity.
Qed.

Lemma validateString_null : validateString null = Success null.
Proof. reflexivity. Qed.

Lemma validateString_undefined :
  validateString undefined =
  Failure "Please enter a name that contains at least one character.".
Proof. reflexivity. Qed.

(** The failure branch is taken on [undefined] and on nothing else. *)
Lemma validateString_failure_iff input :
  success (validateString input) = false ↔ input = undefined.
Proof.
  destruct input as [| |s].
  - rewrite validateString_undefined. by split.
  - rewrite validateString_null. by split.
  - rewrite validateString_str. by split.
Qed.

Lemma validateString_failure_inv input m :
  validateString input = Failure m →
  input = undefined ∧ m = "Please enter a name that contains at least one character.".
Proof.
  destruct input as [| |s].
  - rewrite validateString_undefined. by intros [= <-].
  - by rewrite validateString_null.
  - by rewrite validateString_str.
Qed.

(** C2 (the code departs from the claim): the validator accepts the empty
    string and a string of blanks, returning success with the empty string,
    where the claim has it fail with the re-prompt message; a string with
    characters is trimmed as claimed. *)
Theorem validateString_accepts_blank :
  validateString (str "   ") = Success (str EmptyString) ∧
  validateString (str EmptyString) = Success (str EmptyString) ∧
  validateString (str "  Alice ") = Success (str "Alice").
Proof. repeat split; reflexivity. Qed.

(** ** The age validator *)

Lemma forEach_callback_qualifies output result age :
  qualifies result age → forEach_callback output result = Some age.
Proof.
  intros (Ht & Hp & Hlo & Hhi). unfold forEach_callback. rewrite Ht, Hp.
  rewrite (proj2 (Z.leb_le _ _) Hlo), (proj2 (Z.leb_le _ _) Hhi). reflexivity.
Qed.

Lemma forEach_callback_not_qualifies output result :
  (∀ age, ¬ qualifies result age) → forEach_callback output result = output.
Proof.
  intros Hn. unfold forEach_callback.
  destruct (truthy _) eqn:Ht; [|done].
  destruct (parseInt _) as [age|] eqn:Hp; [|done].
  destruct (18 <=? age) eqn:Hlo; [|done].
  destruct (age <=? 120) eqn:Hhi; [|done].
  destruct (Hn age). repeat split; [done|done|lia|lia].
Qed.

(** Results that do not qualify leave the recorded output as it is. *)
Lemma foldl_not_qualifying output results :
  Forall (λ result, ∀ age, ¬ qualifies result age) results →
  foldl forEach_callback output results = output.
Proof.
  intros H. revert output.
  induction H as [|result results Hr _ IH]; intros output; [done|].
  simpl. rewrite forEach_callback_not_qualifies by done. apply IH.
Qed.

(** The iteration visits every element: the output is that of the last
    qualifying result, whatever was recorded before it. *)
Lemma foldl_last_qualifying output before c after age :
  qualifies c age →
  Forall (λ result, ∀ a, ¬ qualifies result a) after →
  foldl forEach_callback output (before ++ c :: after) = Some age.
Proof.
  intros Hc Hafter. rewrite foldl_app. simpl.
  rewrite (forEach_callback_qualifies _ _ _ Hc).
  by apply foldl_not_qualifying.
Qed.

Section AgeValidator.
Variable recognizeNumber : text → recognized.

Lemma validateAge_throws input :
  recognizeNumber input = Throws →
  validateAge recognizeNumber input =
  Failure "I'm sorry, I could not interpret that as an age. Please enter an age between 18 and 120.".
Proof. intros H. unfold validateAge. by rewrite H. Qed.

Lemma validateAge_no_candidate input results :
  recognizeNumber input = Returns results →
  Forall (λ result, ∀ age, ¬ qualifies result age) results →
  validateAge recognizeNumber input = Failure "Please enter an age between 18 and 120.".
Proof.
  intros H Hn. unfold validateAge. rewrite H.
  by rewrite foldl_not_qualifying.
Qed.

(** A failure of the age validator carries one of two fixed messages. *)
Lemma validateAge_failure_message input m :
  validateAge recognizeNumber input = Failure m →
  m = "Please enter an age between 18 and 120." ∨
  m = "I'm sorry, I could not interpret that as an age. Please enter an age between 18 and 120.".
Proof.
  unfold validateAge. destruct (recognizeNumber input) as [|results].
  - intros [= <-]. by right.
  - destruct (foldl _ _ _); [done|]. intros [= <-]. by left.
Qed.

(** C10: when the recognizer returns several candidates, the age returned
    is that of the last qualifying candidate of the list, not of an earlier
    one: every element is visited and each qualifying candidate overwrites
    what was recorded ([before] may hold any candidates, qualifying or
    not; nothing after [c] qualifies). *)
Theorem validateAge_last_candidate_wins input before c after age :
  recognizeNumber input = Returns (before ++ c :: after) →
  qualifies c age →
  Forall (λ result, ∀ a, ¬ qualifies result a) after →
  validateAge recognizeNumber input = Success age.
Proof.
  intros H Hc Hafter. unfold validateAge. rewrite H.
  by rewrite (foldl_last_qualifying _ _ _ _ _ Hc Hafter).
Qed.
End AgeValidator.

(** C3 (the code departs from the claim): with two candidates in range the
    validator returns the second, 30, where the claim has it return the
    first, 20; with a single candidate the listed inputs behave as claimed. *)
Theorem validateAge_returns_second_of_two :
  validateAge (recognizes [candidate "20"; candidate "30"]) (str "20 or 30") = Success 30 ∧
  validateAge (recognizes [candidate "17"]) (str "17") = Failure "Please enter an age between 18 and 120." ∧
  validateAge (recognizes [candidate "18"]) (str "18") = Success 18 ∧
  validateAge (recognizes [candidate "120"]) (str "120") = Success 120 ∧
  validateAge (recognizes [candidate "121"]) (str "121") = Failure "Please enter an age between 18 and 120." ∧
  validateAge (recognizes [candidate "12"]) (str "twelve") = Failure "Please enter an age between 18 and 120." ∧
  validateAge (recognizes [candidate "20"]) (str "twenty") = Success 20.
Proof. repeat split; reflexivity. Qed.

(** ** The equations of a turn

    One equation per case of each [switch]: the conversation object, the
    caller's profile object and the activities sent, in terms of what the
    validator returns. *)

Ltac turn_eq :=
  unfold turn, fillOutRSVP, fillOutFriend, cancelRSVP, mbind, M_bind, get_flow;
  simpl;
  repeat (case_decide; try discriminate; try congruence).

Lemma or_else_nonempty m fallback : m ≠ EmptyString → or_else m fallback = m.
Proof. intros H. unfold or_else. by rewrite bool_decide_eq_false_2. Qed.

Ltac at_question :=
  match goal with
  | ft : flow_type, fl : flow.t |- _ =>
      destruct ft; destruct fl as [qa qf qc a];
      unfold question_of, counter, handler in *;
      cbn [flow.lastQuestionAsked flow.lastQuestionFriend flow.lastQuestionCancel] in *;
      repeat case_decide; simplify_eq; try done
  end.

Section TurnEquations.
Variable recognizeNumber : text → recognized.

Lemma rsvp_none qf qc a p input :
  turn (fillOutRSVP recognizeNumber) (flow.mk question.none qf qc a) p input =
  Outcome (flow.mk question.name qf qc a) p
    [Message "In order to RSVP you need to give out some information. What is your name?"].
Proof. by turn_eq. Qed.

Lemma rsvp_name qf qc a p input :
  turn (fillOutRSVP recognizeNumber) (flow.mk question.name qf qc a) p input =
  match validateString input with
  | Success v =>
      Outcome (flow.mk question.age qf qc a) (<["name" := Prim v]> p)
        [Message ("Welcome among us " +:+ ToString v +:+ ".");
         Message "How old are you?"]
  | Failure m =>
      Outcome (flow.mk question.name qf qc a) p [Message (or_else m dont_understand)]
  end.
Proof.
  turn_eq. destruct (validateString input); simpl; [|done].
  unfold prop. by rewrite lookup_insert_eq.
Qed.

Lemma rsvp_age qf qc a p input :
  turn (fillOutRSVP recognizeNumber) (flow.mk question.age qf qc a) p input =
  match validateAge recognizeNumber input with
  | Success age =>
      Outcome (flow.mk question.school qf qc a) (<["age" := Num age]> p)
        [Message ("I have your age as " +:+ pretty age +:+ ".");
         Message "What university are you from?"]
  | Failure m =>
      Outcome (flow.mk question.age qf qc a) p [Message (or_else m dont_understand)]
  end.
Proof.
  turn_eq. destruct (validateAge recognizeNumber input); simpl; [|done].
  unfold prop. by rewrite lookup_insert_eq.
Qed.

Lemma rsvp_school qf qc a p input :
  turn (fillOutRSVP recognizeNumber) (flow.mk question.school qf qc a) p input =
  match validateString input with
  | Success v =>
      Outcome (flow.mk question.none qf qc action.none) (<["school" := Prim v]> p)
        (if decide (v = str "Stanford") then
           [Message "I'm sorry, students from Stanford are not accepted. Nobody's perfect but it is still time to apply to Berkeley next year following this link: https://grad.berkeley.edu/admissions/apply/";
            heroCardReply]
         else
           [Message ("Amazing, so many people coming from " +:+ ToString v +:+ ".");
            Reply (str "You can already take a look at the documentation here: https://docs.microsoft.com/en-us/azure/bot-service/bot-service-debug-emulator?view=azure-bot-service-4.0")
                  [getInternetAttachment];
            Message ("Thanks for completing the RSVP " +:+ ToString (prop p "name") +:+ ".");
            heroCardReply])
  | Failure m =>
      Outcome (flow.mk question.school qf qc a) p [Message (or_else m dont_understand)]
  end.
Proof.
  turn_eq. destruct (validateString input) as [v|m]; simpl; [|done].
  unfold prop. rewrite lookup_insert_eq. simpl.
  destruct (decide (v = str "Stanford")) as [->|Hne].
  - rewrite decide_True by done. reflexivity.
  - rewrite decide_False by congruence. simpl.
    by rewrite lookup_insert_ne.
Qed.

Lemma rsvp_other fl p input :
  flow.lastQuestionAsked fl ≠ question.none →
  flow.lastQuestionAsked fl ≠ question.name →
  flow.lastQuestionAsked fl ≠ question.age →
  flow.lastQuestionAsked fl ≠ question.school →
  turn (fillOutRSVP recognizeNumber) fl p input = Outcome fl p [].
Proof. intros. by turn_eq. Qed.

Lemma friend_none qa qc a p input :
  turn fillOutFriend (flow.mk qa friendQuestion.none qc a) p input =
  Outcome (flow.mk qa friendQuestion.name qc a) p
    [Message "What is the name of your friend?"].
Proof. by turn_eq. Qed.

Lemma friend_name qa qc a p input :
  turn fillOutFriend (flow.mk qa friendQuestion.name qc a) p input =
  match validateString input with
  | Success v =>
      Outcome (flow.mk qa friendQuestion.email qc a) (<["firenName" := Prim v]> p)
        [Message "Great! What is your email address?"]
  | Failure m =>
      Outcome (flow.mk qa friendQuestion.name qc a) p [Message (or_else m dont_understand)]
  end.
Proof. turn_eq. by destruct (validateString input). Qed.

Lemma friend_email qa qc a p input :
  turn fillOutFriend (flow.mk qa friendQuestion.email qc a) p input =
  match validateString input with
  | Success v =>
      Outcome (flow.mk qa friendQuestion.none qc action.none) (<["email" := Prim v]> p)
        [Message "Great, we'll have a lot of fun!";
         Message "An email to v-dalhay@microsoft.com has been sent. You'll receive a response by email within 24 hours.";
         heroCardReply]
  | Failure m =>
      Outcome (flow.mk qa friendQuestion.email qc a) p [Message (or_else m dont_understand)]
  end.
Proof. turn_eq. by destruct (validateString input). Qed.

Lemma friend_other fl p input :
  flow.lastQuestionFriend fl ≠ friendQuestion.none →
  flow.lastQuestionFriend fl ≠ friendQuestion.name →
  flow.lastQuestionFriend fl ≠ friendQuestion.email →
  turn fillOutFriend fl p input = Outcome fl p [].
Proof. intros. by turn_eq. Qed.

Lemma cancel_none qa qf a p input :
  turn cancelRSVP (flow.mk qa qf cancelQuestion.none a) p input =
  Outcome (flow.mk qa qf cancelQuestion.name a) p
    [Message "What is your name to cancel your participation?"].
Proof. by turn_eq. Qed.

Lemma cancel_name qa qf a p input :
  turn cancelRSVP (flow.mk qa qf cancelQuestion.name a) p input =
  match validateString input with
  | Success v =>
      Outcome (flow.mk qa qf cancelQuestion.none action.none) (<["cancelName" := Prim v]> p)
        [Message "Ok, let's cancel!"; heroCardReply]
  | Failure m =>
      Outcome (flow.mk qa qf cancelQuestion.name a) p [Message (or_else m dont_understand)]
  end.
Proof. turn_eq. by destruct (validateString input). Qed.

Lemma cancel_other fl p input :
  flow.lastQuestionCancel fl ≠ cancelQuestion.none →
  flow.lastQuestionCancel fl ≠ cancelQuestion.name →
  turn cancelRSVP fl p input = Outcome fl p [].
Proof. intros. by turn_eq. Qed.
(** The message of a failed validation is never empty, so the fallback of
    the [||] is not used. *)
Lemma answer_failure_nonempty k input m :
  answer recognizeNumber k input = Failure m → m ≠ EmptyString.
Proof.
  destruct k; simpl;
    try (destruct (validateString input) eqn:E; simpl; [done|];
         intros [= <-]; apply validateString_failure_inv in E as [_ ->]; done).
  destruct (validateAge recognizeNumber input) eqn:E; simpl; [done|].
  intros [= <-]. by apply validateAge_failure_message in E as [-> | ->].
Qed.

Lemma turn_failure ft fl k p input m :
  question_of ft fl = Some k →
  answer recognizeNumber k input = Failure m →
  turn (handler recognizeNumber ft) fl p input = Outcome fl p [Message m].
Proof.
  intros Hq Ha. pose proof (answer_failure_nonempty _ _ _ Ha) as Hm.
  at_question; simpl in Ha.
  - rewrite rsvp_name. destruct (validateString input); simplify_eq/=.
    by rewrite or_else_nonempty.
  - rewrite rsvp_age. destruct (validateAge _ input); simplify_eq/=.
    by rewrite or_else_nonempty.
  - rewrite rsvp_school. destruct (validateString input); simplify_eq/=.
    by rewrite or_else_nonempty.
  - rewrite friend_name. destruct (validateString input); simplify_eq/=.
    by rewrite or_else_nonempty.
  - rewrite friend_email. destruct (validateString input); simplify_eq/=.
    by rewrite or_else_nonempty.
  - rewrite cancel_name. destruct (validateString input); simplify_eq/=.
    by rewrite or_else_nonempty.
Qed.

(** The caller's profile object after any turn of any flow. *)
Lemma turn_profile ft fl p input :
  out_profile (turn (handler recognizeNumber ft) fl p input) =
  match question_of ft fl with
  | Some k =>
      match answer recognizeNumber k input with
      | Success v => <[field_of k := v]> p
      | Failure _ => p
      end
  | None => p
  end.
Proof.
  at_question; unfold answer.
  - rewrite rsvp_name. by destruct (validateString input).
  - rewrite rsvp_age. by destruct (validateAge _ input).
  - rewrite rsvp_school. by destruct (validateString input).
  - destruct (decide (qa = question.none)) as [->|?];
      [by rewrite rsvp_none | by rewrite rsvp_other].
  - rewrite friend_name. by destruct (validateString input).
  - rewrite friend_email. by destruct (validateString input).
  - destruct (decide (qf = friendQuestion.none)) as [->|?];
      [by rewrite friend_none | by rewrite friend_other].
  - rewrite cancel_name. by destruct (validateString input).
  - destruct (decide (qc = cancelQuestion.none)) as [->|?];
      [by rewrite cancel_none | by rewrite cancel_other].
Qed.
(** C1 (the code departs from the claim): when the last question of a
    flow is answered and the flow returns to [NONE], the profile object
    the caller holds is not empty: it keeps its earlier fields and gains
    the field just written, because the handler rebinds its parameter
    instead of clearing the object. *)
Theorem profile_kept_after_completion qa qf qc a p s :
  let rsvp := turn (fillOutRSVP recognizeNumber) (flow.mk question.school qf qc a) p (str s) in
  let friend := turn fillOutFriend (flow.mk qa friendQuestion.email qc a) p (str s) in
  let cancel := turn cancelRSVP (flow.mk qa qf cancelQuestion.name a) p (str s) in
  (out_flow rsvp = flow.mk question.none qf qc action.none ∧
   out_profile rsvp = <["school" := Prim (str (trim s))]> p ∧
   out_profile rsvp ≠ ∅) ∧
  (out_flow friend = flow.mk qa friendQuestion.none qc action.none ∧
   out_profile friend = <["email" := Prim (str (trim s))]> p ∧
   out_profile friend ≠ ∅) ∧
  (out_flow cancel = flow.mk qa qf cancelQuestion.none action.none ∧
   out_profile cancel = <["cancelName" := Prim (str (trim s))]> p ∧
   out_profile cancel ≠ ∅).
Proof.
  cbv zeta. rewrite rsvp_school, friend_email, cancel_name, validateString_str.
  simpl. split_and!; try done; apply insert_non_empty.
Qed.

(** C4: an action label that arrives while an action is active gets the
    conflict message and nothing else: the conversation object (the active
    action and the three counters) and the profile are unchanged, and no
    flow handler runs. *)
Theorem second_action_rejected fl p label :
  label ∈ actions →
  flow.action fl ≠ action.none →
  turn (onMessage recognizeNumber) fl p label = Outcome fl p [Message conflict].
Proof.
  intros Hin Hactive. unfold turn, onMessage, mbind, M_bind, get_flow. simpl.
  rewrite bool_decide_eq_true_2 by done.
  rewrite decide_False by done. simpl. by destruct fl.
Qed.

(** C5: at the school question of the RSVP flow, once the school is
    validated: for the blocked school the rejection message alone is sent
    before the menu; otherwise the acceptance message, the reply with the
    attachment and the completion message are sent before the menu; in
    both branches the counter and the active action are reset to [NONE]. *)
Theorem rsvp_school_branches qf qc a p input v :
  validateString input = Success v →
  let o := turn (fillOutRSVP recognizeNumber) (flow.mk question.school qf qc a) p input in
  out_sent o =
    (if decide (v = str "Stanford") then
       [Message "I'm sorry, students from Stanford are not accepted. Nobody's perfect but it is still time to apply to Berkeley next year following this link: https://grad.berkeley.edu/admissions/apply/";
        heroCardReply]
     else
       [Message ("Amazing, so many people coming from " +:+ ToString v +:+ ".");
        Reply (str "You can already take a look at the documentation here: https://docs.microsoft.com/en-us/azure/bot-service/bot-service-debug-emulator?view=azure-bot-service-4.0")
              [getInternetAttachment];
        Message ("Thanks for completing the RSVP " +:+ ToString (prop p "name") +:+ ".");
        heroCardReply]) ∧
  flow.lastQuestionAsked (out_flow o) = question.none ∧
  flow.action (out_flow o) = action.none.
Proof. intros Hv. cbv zeta. by rewrite rsvp_school, Hv. Qed.

(** C6 (amended): when the recognizer throws, the exception is caught:
    the age validator returns a failure result with the message of the
    catch clause, and the RSVP flow sends that message and leaves the
    conversation object and the profile unchanged. *)
Theorem recognizer_throw_reprompts qf qc a p input :
  recognizeNumber input = Throws →
  validateAge recognizeNumber input =
    Failure "I'm sorry, I could not interpret that as an age. Please enter an age between 18 and 120." ∧
  turn (fillOutRSVP recognizeNumber) (flow.mk question.age qf qc a) p input =
    Outcome (flow.mk question.age qf qc a) p
      [Message "I'm sorry, I could not interpret that as an age. Please enter an age between 18 and 120."].
Proof.
  intros H. split; [by apply validateAge_throws|].
  by rewrite rsvp_age, validateAge_throws.
Qed.

(** C7: at any question of any flow, an input that fails validation leaves
    the conversation object (counters and active action) and the profile
    unchanged and sends the validator's message; sending the same input
    [n] times leaves the state unchanged and sends that same message every
    time. *)
Theorem reprompt_idempotent ft fl k p input m n :
  question_of ft fl = Some k →
  answer recognizeNumber k input = Failure m →
  turn (handler recognizeNumber ft) fl p input = Outcome fl p [Message m] ∧
  repeat_turn (handler recognizeNumber ft) n fl p input = (fl, p, replicate n [Message m]).
Proof.
  intros Hq Ha. split; [exact (turn_failure ft fl k p input m Hq Ha)|].
  induction n as [|n IH]; [done|]. cbn [repeat_turn].
  rewrite (turn_failure ft fl k p input m Hq Ha).
  cbn [out_flow out_profile out_sent]. by rewrite IH.
Qed.

(** C8: on every turn of every flow the caller's profile is either left
    as it was, or gains exactly the field of the current question with the
    value its validator returned with success; it is left as it was when
    the validator fails and when the counter is [NONE] (the turn that asks
    the first question). *)
Theorem profile_written_only_on_success ft fl p input qa qf qc a :
  out_profile (turn (handler recognizeNumber ft) fl p input) =
    match question_of ft fl with
    | Some k =>
        match answer recognizeNumber k input with
        | Success v => <[field_of k := v]> p
        | Failure _ => p
        end
    | None => p
    end ∧
  out_profile (turn (handler recognizeNumber Rsvp) (flow.mk question.none qf qc a) p input) = p ∧
  out_profile (turn (handler recognizeNumber Friend) (flow.mk qa friendQuestion.none qc a) p input) = p ∧
  out_profile (turn (handler recognizeNumber Cancel) (flow.mk qa qf cancelQuestion.none a) p input) = p.
Proof.
  split; [apply turn_profile|].
  unfold handler. by rewrite rsvp_none, friend_none, cancel_none.
Qed.

(** C9: the failure branch of the text validator is taken only when the
    input is [undefined] or [null]; every string, empty or blank included,
    is accepted with its trimmed form, so at each of the five text
    questions a string input takes the success branch: the field is
    written and the counter moves. *)
Theorem text_reprompt_unreachable ft fl k p s :
  question_of ft fl = Some k →
  k ≠ RsvpAge →
  validateString (str s) = Success (str (trim s)) ∧
  (∀ input, success (validateString input) = false → input = undefined ∨ input = null) ∧
  let o := turn (handler recognizeNumber ft) fl p (str s) in
  out_profile o = <[field_of k := Prim (str (trim s))]> p ∧
  counter ft (out_flow o) ≠ counter ft fl.
Proof.
  intros Hq Hk. split; [apply validateString_str|]. split.
  { intros input H. left. by apply validateString_failure_iff. }
  cbv zeta. at_question.
  - by rewrite rsvp_name, validateString_str.
  - by rewrite rsvp_school, validateString_str.
  - by rewrite friend_name, validateString_str.
  - by rewrite friend_email, validateString_str.
  - by rewrite cancel_name, validateString_str.
Qed.
End TurnEquations.

(** ** The properties at concrete inputs *)

(** The RSVP flow completes with school "MIT": the caller's profile still
    holds the name and the age, and now the school. *)
Example rsvp_completion_keeps_profile :
  let o := turn (fillOutRSVP (recognizes []))
             (flow.mk question.school friendQuestion.none cancelQuestion.none action.rsvp)
             (<["age" := Num 25]> {[ "name" := Prim (str "Alice") ]}) (str "MIT") in
  out_flow o = default_flow ∧
  out_profile o !! "name" = Some (Prim (str "Alice")) ∧
  out_profile o !! "age" = Some (Num 25) ∧
  out_profile o !! "school" = Some (Prim (str "MIT")).
Proof. repeat split; vm_compute; reflexivity. Qed.

Lemma second_action_rejected_witness :
  let fl := flow.mk question.age friendQuestion.none cancelQuestion.none action.rsvp in
  turn (onMessage (recognizes [])) fl ∅ action.cancel = Outcome fl ∅ [Message conflict].
Proof.
  apply (second_action_rejected (recognizes [])).
  - unfold actions. apply list_elem_of_further, list_elem_of_here.
  - discriminate.
Defined.

Lemma rsvp_school_branches_witness :
  let o := turn (fillOutRSVP (recognizes []))
             (flow.mk question.school friendQuestion.none cancelQuestion.none action.rsvp)
             {[ "name" := Prim (str "Alice") ]} (str " Stanford ") in
  out_sent o =
    [Message "I'm sorry, students from Stanford are not accepted. Nobody's perfect but it is still time to apply to Berkeley next year following this link: https://grad.berkeley.edu/admissions/apply/";
     heroCardReply] ∧
  flow.lastQuestionAsked (out_flow o) = question.none ∧
  flow.action (out_flow o) = action.none.
Proof.
  apply (rsvp_school_branches (recognizes []) friendQuestion.none cancelQuestion.none
           action.rsvp {[ "name" := Prim (str "Alice") ]} (str " Stanford ") (str "Stanford")).
  reflexivity.
Defined.

(** C6 as stated fails: a throwing recognizer and a recognizer without
    candidates give failure results with different messages. *)
Lemma recognizer_throw_message_differs :
  validateAge recognizer_throws (str "abc") =
    Failure "I'm sorry, I could not interpret that as an age. Please enter an age between 18 and 120." ∧
  validateAge (recognizes []) (str "abc") =
    Failure "Please enter an age between 18 and 120." ∧
  validateAge recognizer_throws (str "abc") ≠ validateAge (recognizes []) (str "abc").
Proof. split_and!; [reflexivity | reflexivity | discriminate]. Qed.

Lemma recognizer_throw_reprompts_witness :
  let fl := flow.mk question.age friendQuestion.none cancelQuestion.none action.rsvp in
  validateAge recognizer_throws (str "abc") =
    Failure "I'm sorry, I could not interpret that as an age. Please enter an age between 18 and 120." ∧
  turn (fillOutRSVP recognizer_throws) fl ∅ (str "abc") =
    Outcome fl ∅
      [Message "I'm sorry, I could not interpret that as an age. Please enter an age between 18 and 120."].
Proof.
  apply (recognizer_throw_reprompts recognizer_throws). reflexivity.
Defined.

Lemma reprompt_idempotent_witness :
  let fl := flow.mk question.age friendQuestion.none cancelQuestion.none action.rsvp in
  let m := "Please enter an age between 18 and 120." in
  turn (handler (recognizes [candidate "15"]) Rsvp) fl ∅ (str "15") = Outcome fl ∅ [Message m] ∧
  repeat_turn (handler (recognizes [candidate "15"]) Rsvp) 3 fl ∅ (str "15") =
    (fl, ∅, [[Message m]; [Message m]; [Message m]]).
Proof.
  apply (reprompt_idempotent (recognizes [candidate "15"]) Rsvp _ RsvpAge); reflexivity.
Defined.

Lemma text_reprompt_unreachable_witness :
  let fl := flow.mk question.none friendQuestion.name cancelQuestion.none action.friend in
  let o := turn (handler (recognizes []) Friend) fl ∅ (str "   ") in
  validateString (str "   ") = Success (str EmptyString) ∧
  (undefined = undefined ∨ undefined = null) ∧
  out_profile o = {[ "firenName" := Prim (str EmptyString) ]} ∧
  flow.lastQuestionFriend (out_flow o) ≠ friendQuestion.name.
Proof.
  destruct (text_reprompt_unreachable (recognizes []) Friend
              (flow.mk question.none friendQuestion.name cancelQuestion.none action.friend)
              FriendName ∅ "   " eq_refl ltac:(discriminate)) as (H1 & H2 & H3 & H4).
  split_and!; [exact H1 | exact (H2 undefined eq_refl) | exact H3 | exact H4].
Defined.

Lemma validateAge_last_candidate_wins_witness :
  validateAge (recognizes [candidate "20"; candidate "25"; candidate "30"; candidate "7"])
    (str "20, 25, 30 or 7") = Success 30.
Proof.
  apply (validateAge_last_candidate_wins _ _ [candidate "20"; candidate "25"]
           (candidate "30") [candidate "7"] 30).
  - reflexivity.
  - split; [reflexivity | split; [reflexivity | lia]].
  - constructor; [|constructor].
    intros a (_ & Hp & Hlo & _). vm_compute in Hp. injection Hp as <-. lia.
Defined.


(** * Further properties *)

(** ** Trimming and the text validator *)

Lemma trimEnd_idem s : trimEnd (trimEnd s) = trimEnd s.
Proof.
  induction s as [|c s IH]; [done|]. simpl.
  destruct (trimEnd s) as [|d t] eqn:E.
  - destruct (is_white_space c) eqn:Hc; [done|]. simpl. by rewrite Hc.
  - change (trimEnd (String c (String d t))) with
      (match trimEnd (String d t) with
       | EmptyString => if is_white_space c then EmptyString else String c EmptyString
       | u => String c u
       end).
    by rewrite IH.
Qed.

Lemma trimStart_idem s : trimStart (trimStart s) = trimStart s.
Proof.
  induction s as [|c s IH]; [done|]. simpl.
  destruct (is_white_space c) eqn:Hc; [done|]. simpl. by rewrite Hc.
Qed.

(** Trimming the end keeps a first character that is not white space. *)
Lemma trimStart_trimEnd s : trimStart s = s → trimStart (trimEnd s) = trimEnd s.
Proof.
  destruct s as [|c s]; [done|]. intros H.
  destruct (is_white_space c) eqn:Hc.
  - exfalso. simpl in H. rewrite Hc in H.
    assert (Hlen : (String.length (trimStart s) ≤ String.length s)%nat).
    { clear. induction s as [|d s IH]; simpl; [lia|].
      destruct (is_white_space d); simpl; lia. }
    rewrite H in Hlen. simpl in Hlen. lia.
  - simpl. destruct (trimEnd s); rewrite ?Hc; simpl; by rewrite Hc.
Qed.

Lemma trim_idem s : trim (trim s) = trim s.
Proof.
  unfold trim.
  rewrite (trimStart_trimEnd (trimStart s)) by apply trimStart_idem.
  apply trimEnd_idem.
Qed.

(** X3: the value a successful text validation returns is normalized: it has
    no white space left to trim at either end, and validating it again
    returns it unchanged. *)
Theorem validateString_normalizes input v :
  validateString input = Success v →
  validateString v = Success v ∧
  ∀ s, v = str s → trimStart s = s ∧ trimEnd s = s.
Proof.
  destruct input as [| |s0].
  - by rewrite validateString_undefined.
  - rewrite validateString_null. intros [= <-]. by split.
  - rewrite validateString_str. intros [= <-]. split.
    + by rewrite validateString_str, trim_idem.
    + intros s [= <-]. unfold trim. split.
      * apply trimStart_trimEnd, trimStart_idem.
      * apply trimEnd_idem.
Qed.

Lemma trimStart_split s :
  ∃ l, s = l +:+ trimStart s ∧
       Forall (λ c, is_white_space c = true) (String.list_ascii_of_string l).
Proof.
  induction s as [|c s (l & Hl & Hw)].
  - exists EmptyString. by split.
  - simpl. destruct (is_white_space c) eqn:Hc.
    + exists (String c l). split; [exact (f_equal (String c) Hl) | by constructor].
    + exists EmptyString. by split.
Qed.

Lemma trimEnd_split s :
  ∃ r, s = trimEnd s +:+ r ∧
       Forall (λ c, is_white_space c = true) (String.list_ascii_of_string r).
Proof.
  induction s as [|c s (r & Hr & Hw)].
  - exists EmptyString. by split.
  - simpl. destruct (trimEnd s) as [|d t] eqn:E.
    + change (s = r) in Hr. subst r. destruct (is_white_space c) eqn:Hc.
      * exists (String c s). split; [done | by constructor].
      * exists s. by split.
    + exists r. split; [exact (f_equal (String c) Hr) | done].
Qed.

(** X16: a successful text validation of a string only trims: the input is
    the returned string between a run of white space on the left and a run
    of white space on the right, so no other character is dropped or
    changed. *)
Theorem validateString_only_trims s v :
  validateString (str s) = Success v →
  ∃ l t r,
    v = str t ∧ s = l +:+ t +:+ r ∧
    Forall (λ c, is_white_space c = true) (String.list_ascii_of_string l) ∧
    Forall (λ c, is_white_space c = true) (String.list_ascii_of_string r).
Proof.
  rewrite validateString_str. intros [= <-].
  destruct (trimStart_split s) as (l & Hl & Hwl).
  destruct (trimEnd_split (trimStart s)) as (r & Hr & Hwr).
  exists l, (trim s), r. split_and!; [done| |done|done].
  unfold trim. by rewrite <- Hr.
Qed.

(** ** The age validator, for any recognizer *)

Lemma forEach_callback_cases output result :
  forEach_callback output result = output ∨
  ∃ age, qualifies result age ∧ forEach_callback output result = Some age.
Proof.
  unfold forEach_callback, qualifies.
  destruct (truthy _) eqn:Ht; [|by left].
  destruct (parseInt _) as [age|] eqn:Hp; [|by left].
  destruct (18 <=? age) eqn:Hlo; [|by left].
  destruct (age <=? 120) eqn:Hhi; [|by left].
  right. exists age. simpl. split_and!; try done; lia.
Qed.

(** What the iteration records comes from the list or was there before. *)
Lemma foldl_forEach_some output results age :
  foldl forEach_callback output results = Some age →
  output = Some age ∨ ∃ result, result ∈ results ∧ qualifies result age.
Proof.
  revert output. induction results as [|c results IH]; intros output; simpl.
  - by left.
  - intros H. destruct (IH _ H) as [Hc | (c' & Hin & Hq)].
    + destruct (forEach_callback_cases output c) as [E | (a & Hq & E)].
      * left. congruence.
      * right. exists c. split; [apply list_elem_of_here|]. congruence.
    + right. exists c'. split; [by apply list_elem_of_further | done].
Qed.

Lemma foldl_forEach_none output results :
  foldl forEach_callback output results = None →
  output = None ∧ Forall (λ result, ∀ age, ¬ qualifies result age) results.
Proof.
  revert output. induction results as [|c results IH]; intros output; simpl.
  - by split.
  - intros H. destruct (IH _ H) as [Hc Hrest].
    destruct (forEach_callback_cases output c) as [E | (a & Hq & E)]; [|congruence].
    split; [congruence|]. constructor; [|done].
    intros a Hq. rewrite (forEach_callback_qualifies _ _ _ Hq) in Hc. done.
Qed.

(** A decimal point ends the digits [parseInt] reads: what follows it, and
    the point itself, do not count. *)
Lemma parse_digits_app_dot R s t acc :
  parse_digits R (s +:+ String "."%char t) acc = parse_digits R s acc.
Proof.
  revert acc. induction s as [|c s IH]; intros acc.
  - reflexivity.
  - change (String c s +:+ String "."%char t) with (String c (s +:+ String "."%char t)).
    simpl. destruct (digit_of R c); [apply IH | done].
Qed.

Lemma trimStart_app_dot s t :
  trimStart (s +:+ String "."%char t) = trimStart s +:+ String "."%char t.
Proof.
  induction s as [|c s IH]; [reflexivity|].
  change (String c s +:+ String "."%char t) with (String c (s +:+ String "."%char t)).
  simpl. by destruct (is_white_space c).
Qed.

Lemma parseInt_app_dot s t : parseInt (s +:+ String "."%char t) = parseInt s.
Proof.
  unfold parseInt. rewrite trimStart_app_dot.
  destruct (trimStart s) as [|c s1]; [reflexivity|].
  change (String c s1 +:+ String "."%char t) with (String c (s1 +:+ String "."%char t)).
  assert (Hrad : ∀ sign s2,
    (let '(R, s3) :=
       match s2 +:+ String "."%char t with
       | String "0"%char (String "x"%char s')
       | String "0"%char (String "X"%char s') => (16, s')
       | _ => (10, s2 +:+ String "."%char t)
       end in (λ n, sign * n) <$> parse_digits R s3 None) =
    (let '(R, s3) :=
       match s2 with
       | String "0"%char (String "x"%char s')
       | String "0"%char (String "X"%char s') => (16, s')
       | _ => (10, s2)
       end in (λ n, sign * n) <$> parse_digits R s3 None)).
  { intros sign s2. destruct s2 as [|d s2]; [reflexivity|].
    change (String d s2 +:+ String "."%char t) with (String d (s2 +:+ String "."%char t)).
    destruct s2 as [|e s2].
    - destruct d as [[] [] [] [] [] [] [] []]; reflexivity.
    - change (String e s2 +:+ String "."%char t) with (String e (s2 +:+ String "."%char t)).
      destruct d as [[] [] [] [] [] [] [] []];
        try (change (String ?a (String e (s2 +:+ String "."%char t)))
               with (String a (String e s2) +:+ String "."%char t);
             by rewrite parse_digits_app_dot).
      destruct e as [[] [] [] [] [] [] [] []];
        try (by rewrite parse_digits_app_dot);
        try (change (String ?a (String ?b (s2 +:+ String "."%char t)))
               with (String a (String b s2) +:+ String "."%char t);
             by rewrite parse_digits_app_dot). }
  destruct c as [b0 b1 b2 b3 b4 b5 b6 b7].
  destruct b0, b1, b2, b3, b4, b5, b6, b7;
    first [ exact (Hrad (-1) s1) | exact (Hrad 1 s1)
          | match goal with
            | |- context [String ?c (s1 +:+ _)] => exact (Hrad 1 (String c s1))
            end ].
Qed.

Lemma candidate_value s : prop (resolution (candidate s)) "value" = Prim (str s).
Proof. unfold prop, candidate. simpl. by rewrite lookup_singleton_eq. Qed.

Lemma forEach_callback_decimal output s frac :
  forEach_callback output (candidate (s +:+ String "."%char frac)) =
  forEach_callback output (candidate s).
Proof.
  unfold forEach_callback. rewrite !candidate_value. simpl.
  rewrite parseInt_app_dot.
  destruct s as [|c s]; [reflexivity | done].
Qed.

Section AgeValidatorMore.
Variable recognizeNumber : text → recognized.

(** X1: whatever the recognizer returns, an age the validator accepts lies
    between 18 and 120 and is the age of one of the returned candidates. *)
Theorem validateAge_success_in_range input age :
  validateAge recognizeNumber input = Success age →
  18 ≤ age ≤ 120 ∧
  ∃ results result,
    recognizeNumber input = Returns results ∧ result ∈ results ∧ qualifies result age.
Proof.
  unfold validateAge. destruct (recognizeNumber input) as [|results]; [done|].
  destruct (foldl _ _ _) as [a|] eqn:E; [|done]. intros [= ->].
  apply foldl_forEach_some in E as [? | (c & Hin & Hq)]; [done|].
  split; [apply Hq|]. by exists results, c.
Qed.

(** X2: when the recognizer returns, the validator succeeds exactly when
    some candidate of the list qualifies; an empty list fails. *)
Theorem validateAge_success_iff input results :
  recognizeNumber input = Returns results →
  success (validateAge recognizeNumber input) = true ↔
  Exists (λ result, ∃ age, qualifies result age) results.
Proof.
  intros H. unfold validateAge. rewrite H.
  destruct (foldl _ _ _) as [a|] eqn:E; simpl.
  - split; [intros _|done].
    apply foldl_forEach_some in E as [? | (c & Hin & Hq)]; [done|].
    apply Exists_exists. exists c. split; [done | by exists a].
  - split; [done|]. intros Hex.
    apply foldl_forEach_none in E as [_ Hall].
    apply Exists_exists in Hex as (c & Hin & a & Hq).
    rewrite Forall_forall in Hall. destruct (Hall c Hin a Hq).
Qed.
(** X17: the range test is made on the integer part of a candidate: a
    candidate value with a decimal point is accepted or refused, and
    recorded, as the text before the point alone would be. *)
Theorem validateAge_truncates_decimals input s frac :
  recognizeNumber input = Returns [candidate (s +:+ String "."%char frac)] →
  validateAge recognizeNumber input =
  match parseInt s with
  | Some age =>
      if (18 <=? age) && (age <=? 120) then Success age
      else Failure "Please enter an age between 18 and 120."
  | None => Failure "Please enter an age between 18 and 120."
  end.
Proof.
  intros H. unfold validateAge. rewrite H. cbn [foldl].
  rewrite forEach_callback_decimal. unfold forEach_callback.
  rewrite candidate_value. simpl.
  destruct s as [|c s]; [done|]. simpl.
  destruct (parseInt _) as [age|]; [|done].
  by destruct ((18 <=? age) && (age <=? 120)).
Qed.
End AgeValidatorMore.

(** ** The flows and the dispatcher, turn by turn *)

Ltac split_counter ft fl :=
  destruct ft; destruct fl as [qa qf qc a];
  unfold question_of, counter, handler;
  cbn [flow.lastQuestionAsked flow.lastQuestionFriend flow.lastQuestionCancel];
  repeat case_decide; simplify_eq.

Section Dispatcher.
Variable recognizeNumber : text → recognized.

(** The handler either returns early with the conflict message or runs the
    flow the conversation object selects, after recording a new action. *)
Lemma onMessage_turn fl p t :
  turn (onMessage recognizeNumber) fl p t =
  if bool_decide (t ∈ actions) then
    if decide (flow.action fl = action.none) then
      match active_flow (with_action t fl) with
      | Some ft => turn (handler recognizeNumber ft) (with_action t fl) p t
      | None => Outcome (with_action t fl) p []
      end
    else Outcome fl p [Message conflict]
  else
    match active_flow fl with
    | Some ft => turn (handler recognizeNumber ft) fl p t
    | None => Outcome fl p []
    end.
Proof.
  destruct fl as [qa qf qc a].
  unfold turn at 1, onMessage, mbind, M_bind, get_flow, active_flow, with_action, handler.
  cbn [flow.action flow_of fst snd].
  destruct (bool_decide (t ∈ actions)).
  - destruct (decide (a = action.none)) as [->|Hne]; [|done].
    simpl. repeat case_decide; done.
  - simpl. repeat case_decide; done.
Qed.

(** Where a turn of a flow leaves the conversation object. *)
Lemma turn_flow ft fl p input :
  out_flow (turn (handler recognizeNumber ft) fl p input) =
  match question_of ft fl with
  | Some k =>
      match answer recognizeNumber k input with
      | Success _ => next_flow k fl
      | Failure _ => fl
      end
  | None =>
      if decide (counter ft fl = str "NONE") then set_counter ft (str "NAME") fl else fl
  end.
Proof.
  split_counter ft fl; unfold answer.
  - rewrite (rsvp_name recognizeNumber). by destruct (validateString input).
  - rewrite (rsvp_age recognizeNumber). by destruct (validateAge _ input).
  - rewrite (rsvp_school recognizeNumber). by destruct (validateString input).
  - by rewrite (rsvp_none recognizeNumber).
  - by rewrite (rsvp_other recognizeNumber).
  - rewrite friend_name. by destruct (validateString input).
  - rewrite friend_email. by destruct (validateString input).
  - by rewrite friend_none.
  - by rewrite friend_other.
  - rewrite cancel_name. by destruct (validateString input).
  - by rewrite cancel_none.
  - by rewrite cancel_other.
Qed.

(** At a question the bot always answers something. *)
Lemma turn_sent_nonempty ft fl k p input :
  question_of ft fl = Some k →
  out_sent (turn (handler recognizeNumber ft) fl p input) ≠ [].
Proof.
  intros Hq. at_question.
  - rewrite (rsvp_name recognizeNumber). by destruct (validateString input).
  - rewrite (rsvp_age recognizeNumber). by destruct (validateAge _ input).
  - rewrite (rsvp_school recognizeNumber).
    destruct (validateString input); [|done]. simpl. by case_decide.
  - rewrite friend_name. by destruct (validateString input).
  - rewrite friend_email. by destruct (validateString input).
  - rewrite cancel_name. by destruct (validateString input).
Qed.
Lemma active_flow_label fl ft : flow.action fl = label_of ft → active_flow fl = Some ft.
Proof. intros H. unfold active_flow. rewrite H. by destruct ft. Qed.

Lemma label_in_actions ft : label_of ft ∈ actions.
Proof. destruct ft; unfold actions; set_solver. Qed.

Lemma label_not_none ft : label_of ft ≠ action.none.
Proof. by destruct ft. Qed.

(** X4: while no action is active, a text that is not one of the three
    labels is ignored: nothing is sent and nothing changes. *)
Theorem onMessage_idle_ignored fl p t :
  flow.action fl = action.none →
  t ∉ actions →
  turn (onMessage recognizeNumber) fl p t = Outcome fl p [].
Proof.
  intros Hidle Ht. rewrite onMessage_turn, bool_decide_eq_false_2 by done.
  unfold active_flow. rewrite Hidle. done.
Qed.

(** X5: while no action is active, the label of a flow whose counter is
    [NONE] starts that flow in the same turn: the action is recorded, the
    first question is asked and the counter moves to [NAME]; the profile
    is untouched. *)
Theorem onMessage_starts_flow ft fl p :
  flow.action fl = action.none →
  counter ft fl = str "NONE" →
  turn (onMessage recognizeNumber) fl p (label_of ft) =
  Outcome (set_counter ft (str "NAME") (with_action (label_of ft) fl)) p
    [Message match ft with
             | Rsvp => "In order to RSVP you need to give out some information. What is your name?"
             | Friend => "What is the name of your friend?"
             | Cancel => "What is your name to cancel your participation?"
             end].
Proof.
  intros Hidle Hc. rewrite onMessage_turn.
  rewrite bool_decide_eq_true_2 by apply label_in_actions.
  rewrite decide_True by done.
  rewrite (active_flow_label _ ft) by done.
  destruct ft; destruct fl as [qa qf qc a]; simpl in Hc; subst;
    unfold handler, with_action, set_counter;
    cbn [flow.lastQuestionAsked flow.lastQuestionFriend flow.lastQuestionCancel flow.action].
  - apply (rsvp_none recognizeNumber).
  - apply friend_none.
  - apply cancel_none.
Qed.

(** X6: while an action is active, a text that is not a label goes to the
    handler of that action and to no other. *)
Theorem onMessage_forwards ft fl p t :
  flow.action fl = label_of ft →
  t ∉ actions →
  turn (onMessage recognizeNumber) fl p t = turn (handler recognizeNumber ft) fl p t.
Proof.
  intros Hact Ht. rewrite onMessage_turn, bool_decide_eq_false_2 by done.
  by rewrite (active_flow_label _ ft).
Qed.

(** X7: each flow moves along its own sequence: from [NONE] to [NAME]
    without validating anything; at a question, to the next question on
    success (from the last one back to [NONE], with the action reset) and
    nowhere on failure; on a counter value no case matches, nowhere. *)
Theorem flow_moves_along_sequence ft fl p input :
  out_flow (turn (handler recognizeNumber ft) fl p input) =
  match question_of ft fl with
  | Some k =>
      match answer recognizeNumber k input with
      | Success _ => next_flow k fl
      | Failure _ => fl
      end
  | None =>
      if decide (counter ft fl = str "NONE") then set_counter ft (str "NAME") fl else fl
  end.
Proof.
  destruct (question_of ft fl) as [k|] eqn:Hq.
  - pose proof (turn_flow ft fl p input) as Ht. rewrite Hq in Ht.
    destruct (answer recognizeNumber k input); exact Ht.
  - pose proof (turn_flow ft fl p input) as Ht. rewrite Hq in Ht.
    case_decide; exact Ht.
Qed.

(** X8: a flow handler never touches the counters of the other two flows,
    and it changes the active action only by resetting it to [NONE], which
    it does only when its own counter returns to [NONE]. *)
Theorem handler_keeps_other_flows ft ft' fl p input :
  let fl' := out_flow (turn (handler recognizeNumber ft) fl p input) in
  (ft' ≠ ft → counter ft' fl' = counter ft' fl) ∧
  (flow.action fl' = flow.action fl ∨
   flow.action fl' = action.none ∧ counter ft fl' = str "NONE").
Proof.
  cbv zeta. rewrite turn_flow. split.
  - intros Hne.
    destruct (question_of ft fl) as [k|] eqn:Hq.
    + destruct (answer _ k input); [|done].
      clear -Hq Hne. destruct ft'; at_question.
    + case_decide; [|done]. by destruct ft, ft', fl.
  - destruct (question_of ft fl) as [k|] eqn:Hq.
    + destruct (answer _ k input); [|by left].
      clear -Hq. at_question; (by left) || (by right).
    + left. case_decide; [|done]. by destruct ft, fl.
Qed.
End Dispatcher.

(** ** Whole conversations *)

Lemma actions_label t : t ∈ actions → ∃ ft, t = label_of ft.
Proof.
  unfold actions. rewrite !elem_of_cons, elem_of_nil.
  intros [-> | [-> | [-> | []]]]; [by exists Rsvp | by exists Cancel | by exists Friend].
Qed.

Lemma next_flow_consistent ft k fl :
  flow.action fl = label_of ft →
  question_of ft fl = Some k →
  (∀ ft', ft' ≠ ft → counter ft' fl = str "NONE") →
  consistent (next_flow k fl).
Proof.
  intros Ha Hq Ho.
  pose proof (Ho Rsvp) as H1. pose proof (Ho Friend) as H2. pose proof (Ho Cancel) as H3.
  clear Ho. at_question.
  - specialize (H2 ltac:(done)). specialize (H3 ltac:(done)). subst.
    right. exists Rsvp, RsvpAge. split_and!; [done|done|]. by intros [].
  - specialize (H2 ltac:(done)). specialize (H3 ltac:(done)). subst.
    right. exists Rsvp, RsvpSchool. split_and!; [done|done|]. by intros [].
  - specialize (H2 ltac:(done)). specialize (H3 ltac:(done)). subst. by left.
  - specialize (H1 ltac:(done)). specialize (H3 ltac:(done)). subst.
    right. exists Friend, FriendEmail. split_and!; [done|done|]. by intros [].
  - specialize (H1 ltac:(done)). specialize (H3 ltac:(done)). subst. by left.
  - specialize (H1 ltac:(done)). specialize (H2 ltac:(done)). subst. by left.
Qed.

Section Conversations.
Variable recognizeNumber : text → recognized.

Lemma onMessage_consistent fl p t :
  consistent fl → consistent (out_flow (turn (onMessage recognizeNumber) fl p t)).
Proof.
  intros Hc. rewrite onMessage_turn.
  destruct Hc as [-> | (ft & k & Ha & Hq & Ho)].
  - destruct (bool_decide (t ∈ actions)) eqn:E; [|by left].
    apply bool_decide_eq_true in E. apply actions_label in E as [ft ->].
    rewrite decide_True by done.
    rewrite (active_flow_label _ ft) by done.
    rewrite turn_flow. right.
    destruct ft; [exists Rsvp, RsvpName | exists Friend, FriendName | exists Cancel, CancelName];
      (split_and!; [done|done|by intros []]).
  - destruct (bool_decide (t ∈ actions)).
    + rewrite decide_False by (rewrite Ha; apply label_not_none).
      right. by exists ft, k.
    + rewrite (active_flow_label _ ft) by done.
      rewrite turn_flow, Hq.
      destruct (answer _ k t); [by apply (next_flow_consistent ft)|].
      right. by exists ft, k.
Qed.

(** One turn of the message handler changes the caller's profile by at most
    one inserted field. *)
Lemma onMessage_profile fl p t :
  out_profile (turn (onMessage recognizeNumber) fl p t) = p ∨
  ∃ k v, out_profile (turn (onMessage recognizeNumber) fl p t) = <[k := v]> p.
Proof.
  rewrite onMessage_turn.
  assert (∀ ft fl',
    out_profile (turn (handler recognizeNumber ft) fl' p t) = p ∨
    ∃ k v, out_profile (turn (handler recognizeNumber ft) fl' p t) = <[k := v]> p) as Hh.
  { intros ft fl'. rewrite turn_profile.
    destruct (question_of ft fl') as [k|]; [|by left].
    destruct (answer _ k t) as [v|]; [|by left]. right. by exists (field_of k), v. }
  destruct (bool_decide (t ∈ actions)).
  - destruct (decide (flow.action fl = action.none)); [|by left].
    destruct (active_flow _); [apply Hh | by left].
  - destruct (active_flow _); [apply Hh | by left].
Qed.

(** X9: every conversation keeps the conversation object consistent: from
    a consistent object (the default one of a first contact is), whatever
    the inputs, at most one flow is under way after every turn, its counter
    is at one of its questions, and the counters of the other flows are
    [NONE]. *)
Theorem conversation_consistent fl p inputs :
  consistent fl →
  consistent (out_flow (converse (onMessage recognizeNumber) fl p inputs)).
Proof.
  revert fl p. induction inputs as [|t inputs IH]; intros fl p Hc; [done|].
  cbn [converse out_flow]. apply IH. by apply onMessage_consistent.
Qed.

(** X10: while an action is active in a consistent conversation, every
    message gets an answer: the turn sends at least one activity. *)
Theorem active_flow_always_answers fl p t :
  consistent fl →
  flow.action fl ≠ action.none →
  out_sent (turn (onMessage recognizeNumber) fl p t) ≠ [].
Proof.
  intros [-> | (ft & k & Ha & Hq & _)] Hact; [done|].
  rewrite onMessage_turn. destruct (bool_decide (t ∈ actions)).
  - by rewrite decide_False.
  - rewrite (active_flow_label _ ft) by done. by apply turn_sent_nonempty with k.
Qed.

(** X11: no conversation ever removes a field from the caller's profile:
    the fields present before are still present after any sequence of
    inputs. *)
Theorem profile_fields_never_removed fl p inputs :
  dom p ⊆ dom (out_profile (converse (onMessage recognizeNumber) fl p inputs)).
Proof.
  revert fl p. induction inputs as [|t inputs IH]; intros fl p; [done|].
  cbn [converse out_profile]. etrans; [|apply IH].
  destruct (onMessage_profile fl p t) as [-> | (k & v & ->)]; [done|].
  apply dom_insert_subseteq.
Qed.

(** X12: a whole RSVP conversation.  From a conversation object without
    active action and with the RSVP counter at [NONE], the label, a name, an
    age text the validator accepts and a school, none of the three answers
    being itself a label, bring the conversation object back to where it
    was and leave the three answers in the caller's profile. *)
Theorem rsvp_conversation qf qc p name age_text age school :
  str name ∉ actions →
  age_text ∉ actions →
  str school ∉ actions →
  validateAge recognizeNumber age_text = Success age →
  let fl := flow.mk question.none qf qc action.none in
  let o := converse (onMessage recognizeNumber) fl p
             [action.rsvp; str name; age_text; str school] in
  out_flow o = fl ∧
  out_profile o =
    <["school" := Prim (str (trim school))]>
      (<["age" := Num age]> (<["name" := Prim (str (trim name))]> p)) ∧
  out_sent o =
    [Message "In order to RSVP you need to give out some information. What is your name?";
     Message ("Welcome among us " +:+ trim name +:+ ".");
     Message "How old are you?";
     Message ("I have your age as " +:+ pretty age +:+ ".");
     Message "What university are you from?"] ++
    (if decide (trim school = "Stanford") then
       [Message "I'm sorry, students from Stanford are not accepted. Nobody's perfect but it is still time to apply to Berkeley next year following this link: https://grad.berkeley.edu/admissions/apply/";
        heroCardReply]
     else
       [Message ("Amazing, so many people coming from " +:+ trim school +:+ ".");
        Reply (str "You can already take a look at the documentation here: https://docs.microsoft.com/en-us/azure/bot-service/bot-service-debug-emulator?view=azure-bot-service-4.0")
              [getInternetAttachment];
        Message ("Thanks for completing the RSVP " +:+ trim name +:+ ".");
        heroCardReply]).
Proof.
  intros Hn Ha Hs Hv. cbv zeta. cbn [converse out_flow out_profile out_sent].
  assert (Hstep : ∀ q p' t, t ∉ actions →
    turn (onMessage recognizeNumber) (flow.mk q qf qc action.rsvp) p' t =
    turn (fillOutRSVP recognizeNumber) (flow.mk q qf qc action.rsvp) p' t).
  { intros q p' t Ht. rewrite onMessage_turn, bool_decide_eq_false_2 by done.
    by rewrite (active_flow_label _ Rsvp). }
  assert (Hstart :
    turn (onMessage recognizeNumber) (flow.mk question.none qf qc action.none) p action.rsvp =
    Outcome (flow.mk question.name qf qc action.rsvp) p
      [Message "In order to RSVP you need to give out some information. What is your name?"]).
  { rewrite onMessage_turn.
    rewrite bool_decide_eq_true_2 by apply (label_in_actions Rsvp).
    rewrite decide_True by done.
    rewrite (active_flow_label _ Rsvp) by done.
    apply (rsvp_none recognizeNumber). }
  rewrite Hstart. cbn [out_flow out_profile out_sent].
  rewrite (Hstep question.name p (str name)) by done.
  rewrite (rsvp_name recognizeNumber), validateString_str. cbn [out_flow out_profile out_sent].
  rewrite (Hstep question.age _ age_text) by done.
  rewrite (rsvp_age recognizeNumber), Hv. cbn [out_flow out_profile out_sent].
  rewrite (Hstep question.school _ (str school)) by done.
  rewrite (rsvp_school recognizeNumber), validateString_str. cbn [out_flow out_profile out_sent].
  split_and!; [done|done|].
  unfold prop. rewrite lookup_insert_ne, lookup_insert_eq by done.
  destruct (decide (trim school = "Stanford")) as [E|E].
  - rewrite decide_True by congruence. by rewrite app_nil_r.
  - rewrite decide_False by congruence. by rewrite app_nil_r.
Qed.

(** X15: the two shorter conversations.  The label and a friend's name and
    an e-mail text, or the label and a name, none of the answers being a
    label, run the friend flow or the cancel flow to its end: the
    conversation object is back where it was, the answers are in the
    caller's profile, and the last turn sends the confirmation and the
    menu.  The e-mail text is taken as it is, trimmed, whatever its form. *)
Theorem friend_and_cancel_conversations qa qf qc p name email :
  str name ∉ actions →
  str email ∉ actions →
  let friend := converse (onMessage recognizeNumber)
                  (flow.mk qa friendQuestion.none qc action.none) p
                  [action.friend; str name; str email] in
  let cancel := converse (onMessage recognizeNumber)
                  (flow.mk qa qf cancelQuestion.none action.none) p
                  [action.cancel; str name] in
  out_flow friend = flow.mk qa friendQuestion.none qc action.none ∧
  out_profile friend =
    <["email" := Prim (str (trim email))]> (<["firenName" := Prim (str (trim name))]> p) ∧
  out_sent friend =
    [Message "What is the name of your friend?";
     Message "Great! What is your email address?";
     Message "Great, we'll have a lot of fun!";
     Message "An email to v-dalhay@microsoft.com has been sent. You'll receive a response by email within 24 hours.";
     heroCardReply] ∧
  out_flow cancel = flow.mk qa qf cancelQuestion.none action.none ∧
  out_profile cancel = <["cancelName" := Prim (str (trim name))]> p ∧
  out_sent cancel =
    [Message "What is your name to cancel your participation?";
     Message "Ok, let's cancel!";
     heroCardReply].
Proof.
  intros Hn He. cbv zeta. cbn [converse out_flow out_profile out_sent].
  assert (Hstep : ∀ ft fl p' t, flow.action fl = label_of ft → t ∉ actions →
    turn (onMessage recognizeNumber) fl p' t = turn (handler recognizeNumber ft) fl p' t).
  { intros ft fl p' t Hact Ht. rewrite onMessage_turn, bool_decide_eq_false_2 by done.
    by rewrite (active_flow_label _ ft). }
  assert (Hstart : ∀ ft fl, flow.action fl = action.none →
    turn (onMessage recognizeNumber) fl p (label_of ft) =
    turn (handler recognizeNumber ft) (with_action (label_of ft) fl) p (label_of ft)).
  { intros ft fl Hidle. rewrite onMessage_turn.
    rewrite bool_decide_eq_true_2 by apply label_in_actions.
    rewrite decide_True by done. by rewrite (active_flow_label _ ft). }
  rewrite (Hstart Friend) by done. rewrite (Hstart Cancel) by done.
  unfold with_action, label_of, handler.
  cbn [flow.lastQuestionAsked flow.lastQuestionFriend flow.lastQuestionCancel].
  rewrite friend_none, cancel_none. cbn [out_flow out_profile out_sent].
  rewrite (Hstep Friend _ p (str name)), (Hstep Cancel _ p (str name)) by done.
  unfold handler.
  rewrite friend_name, cancel_name, validateString_str. cbn [out_flow out_profile out_sent].
  rewrite (Hstep Friend _ _ (str email)) by done. unfold handler.
  rewrite friend_email, validateString_str. cbn [out_flow out_profile out_sent].
  done.
Qed.
End Conversations.

(** ** The fallback text *)

Ltac not_fallback :=
  unfold dont_understand; cbn [out_sent];
  rewrite ?elem_of_cons, ?elem_of_nil; unfold heroCardReply; simpl;
  intuition discriminate.

Section Fallback.
Variable recognizeNumber : text → recognized.

Lemma failure_not_fallback k input m :
  answer recognizeNumber k input = Failure m →
  or_else m dont_understand ≠ dont_understand.
Proof.
  intros Ha. rewrite or_else_nonempty by exact (answer_failure_nonempty _ _ _ _ Ha).
  destruct k; simpl in Ha;
    try (destruct (validateString input) eqn:E; simplify_eq/=;
         by apply validateString_failure_inv in E as [_ ->]).
  destruct (validateAge recognizeNumber input) eqn:E; simplify_eq/=.
  by apply validateAge_failure_message in E as [-> | ->].
Qed.

Lemma handler_never_falls_back ft fl p input :
  Message dont_understand ∉ out_sent (turn (handler recognizeNumber ft) fl p input).
Proof.
  destruct (question_of ft fl) as [k|] eqn:Hq.
  - pose proof (failure_not_fallback k input) as Hf.
    at_question; simpl in Hf.
    + rewrite (rsvp_name recognizeNumber).
      destruct (validateString input) as [v|m]; [not_fallback|].
      specialize (Hf m eq_refl). cbn [out_sent]. rewrite list_elem_of_singleton. congruence.
    + rewrite (rsvp_age recognizeNumber).
      destruct (validateAge recognizeNumber input) as [v|m]; [not_fallback|].
      specialize (Hf m eq_refl). cbn [out_sent]. rewrite list_elem_of_singleton. congruence.
    + rewrite (rsvp_school recognizeNumber).
      destruct (validateString input) as [v|m]; [case_decide; not_fallback|].
      specialize (Hf m eq_refl). cbn [out_sent]. rewrite list_elem_of_singleton. congruence.
    + rewrite friend_name.
      destruct (validateString input) as [v|m]; [not_fallback|].
      specialize (Hf m eq_refl). cbn [out_sent]. rewrite list_elem_of_singleton. congruence.
    + rewrite friend_email.
      destruct (validateString input) as [v|m]; [not_fallback|].
      specialize (Hf m eq_refl). cbn [out_sent]. rewrite list_elem_of_singleton. congruence.
    + rewrite cancel_name.
      destruct (validateString input) as [v|m]; [not_fallback|].
      specialize (Hf m eq_refl). cbn [out_sent]. rewrite list_elem_of_singleton. congruence.
  - at_question.
    + destruct (decide (qa = question.none)) as [->|?];
        [rewrite (rsvp_none recognizeNumber) | rewrite (rsvp_other recognizeNumber) by done];
        not_fallback.
    + destruct (decide (qf = friendQuestion.none)) as [->|?];
        [rewrite friend_none | rewrite friend_other by done]; not_fallback.
    + destruct (decide (qc = cancelQuestion.none)) as [->|?];
        [rewrite cancel_none | rewrite cancel_other by done]; not_fallback.
Qed.

(** X14: the fallback text of the [||] in the failure branches is never
    sent: in no turn of the message handler, whatever the conversation
    object and the input, is "I'm sorry, I didn't understand that." among
    the activities. *)
Theorem fallback_never_sent fl p t :
  Message dont_understand ∉ out_sent (turn (onMessage recognizeNumber) fl p t).
Proof.
  rewrite onMessage_turn.
  destruct (bool_decide (t ∈ actions)).
  - destruct (decide (flow.action fl = action.none)); [|unfold conflict; not_fallback].
    destruct (active_flow _); [apply handler_never_falls_back | not_fallback].
  - destruct (active_flow _); [apply handler_never_falls_back | not_fallback].
Qed.
End Fallback.

(** ** New participants *)

Lemma onMembersAdded_run membersAdded recipient st :
  onMembersAdded membersAdded recipient st =
  (tt, State (flow_of st) (heap st) (sent st ++ greetings membersAdded recipient)).
Proof.
  unfold onMembersAdded, greetings. revert st.
  induction membersAdded as [|member rest IH]; intros st.
  - simpl. rewrite app_nil_r. by destruct st.
  - cbn [for_of flat_map]. unfold mbind, M_bind at 1.
    destruct (decide (ChannelAccount.id member ≠ ChannelAccount.id recipient)).
    + unfold sendHeroCard, sendActivity at 1 2, mbind, M_bind at 1.
      rewrite IH. simpl. by rewrite <- !app_assoc.
    + unfold mret, M_ret. by rewrite IH.
Qed.

(** X13: when members join, the conversation object and the store are left
    as they are, and the welcome followed by the menu is sent once for each
    new member other than the bot itself, in the order of the list: two
    activities per such member, none for the bot. *)
Theorem onMembersAdded_greets membersAdded recipient st :
  let st' := (onMembersAdded membersAdded recipient st).2 in
  flow_of st' = flow_of st ∧
  heap st' = heap st ∧
  sent st' = sent st ++ greetings membersAdded recipient ∧
  length (greetings membersAdded recipient) =
    (2 * length (filter (λ member, ChannelAccount.id member ≠ ChannelAccount.id recipient)
                        membersAdded))%nat.
Proof.
  cbv zeta. rewrite onMembersAdded_run. split_and!; [done|done|done|].
  unfold greetings. induction membersAdded as [|member rest IH]; [done|].
  cbn [flat_map]. rewrite length_app, filter_cons.
  destruct (decide (ChannelAccount.id member ≠ ChannelAccount.id recipient)); simpl in *; lia.
Qed.

(** ** The further properties at concrete inputs *)

Lemma not_a_label s :
  bool_decide (str s ∈ actions) = false → str s ∉ actions.
Proof. apply bool_decide_eq_false_1. Defined.

Lemma validateAge_success_in_range_witness :
  18 ≤ 30 ≤ 120 ∧
  ∃ results result,
    recognizes [candidate "20"; candidate "30"] (str "20 or 30") = Returns results ∧
    result ∈ results ∧ qualifies result 30.
Proof.
  apply (validateAge_success_in_range (recognizes [candidate "20"; candidate "30"])
           (str "20 or 30") 30).
  reflexivity.
Defined.

Lemma validateAge_success_iff_witness :
  success (validateAge (recognizes [candidate "17"; candidate "40"]) (str "17 or 40")) = true ↔
  Exists (λ result, ∃ age, qualifies result age) [candidate "17"; candidate "40"].
Proof.
  apply (validateAge_success_iff (recognizes [candidate "17"; candidate "40"]) (str "17 or 40")).
  reflexivity.
Defined.

Lemma validateString_normalizes_witness :
  validateString (str "Ann") = Success (str "Ann") ∧
  ∀ s, str "Ann" = str s → trimStart s = s ∧ trimEnd s = s.
Proof.
  apply (validateString_normalizes (str "  Ann ") (str "Ann")). reflexivity.
Defined.

Lemma onMessage_idle_ignored_witness :
  turn (onMessage (recognizes [])) default_flow ∅ (str "hello") = Outcome default_flow ∅ [].
Proof.
  apply (onMessage_idle_ignored (recognizes []) default_flow ∅ (str "hello")).
  - reflexivity.
  - apply not_a_label. vm_compute. reflexivity.
Defined.

Lemma onMessage_starts_flow_witness :
  turn (onMessage (recognizes [])) default_flow ∅ action.friend =
  Outcome (flow.mk question.none friendQuestion.name cancelQuestion.none action.friend) ∅
    [Message "What is the name of your friend?"].
Proof.
  apply (onMessage_starts_flow (recognizes []) Friend default_flow ∅); reflexivity.
Defined.

Lemma onMessage_forwards_witness :
  let fl := flow.mk question.age friendQuestion.none cancelQuestion.none action.rsvp in
  turn (onMessage (recognizes [candidate "25"])) fl ∅ (str "25") =
  turn (handler (recognizes [candidate "25"]) Rsvp) fl ∅ (str "25").
Proof.
  apply (onMessage_forwards (recognizes [candidate "25"]) Rsvp).
  - reflexivity.
  - apply not_a_label. vm_compute. reflexivity.
Defined.

Lemma handler_keeps_other_flows_witness :
  let fl := flow.mk question.school friendQuestion.name cancelQuestion.none action.rsvp in
  let fl' := out_flow (turn (handler (recognizes []) Rsvp) fl ∅ (str "MIT")) in
  flow.lastQuestionFriend fl' = friendQuestion.name ∧
  (flow.action fl' = action.rsvp ∨
   flow.action fl' = action.none ∧ flow.lastQuestionAsked fl' = str "NONE").
Proof.
  destruct (handler_keeps_other_flows (recognizes []) Rsvp Friend
              (flow.mk question.school friendQuestion.name cancelQuestion.none action.rsvp)
              ∅ (str "MIT")) as [H1 H2].
  split; [exact (H1 ltac:(discriminate)) | exact H2].
Defined.

Lemma conversation_consistent_witness :
  consistent (out_flow (converse (onMessage (recognizes [candidate "25"])) default_flow ∅
                          [action.rsvp; str "Ann"; str "25"; undefined; action.cancel])).
Proof.
  apply (conversation_consistent (recognizes [candidate "25"]) default_flow).
  left. reflexivity.
Defined.

Lemma active_flow_always_answers_witness :
  out_sent (turn (onMessage (recognizes []))
              (flow.mk question.name friendQuestion.none cancelQuestion.none action.rsvp)
              ∅ undefined) ≠ [].
Proof.
  apply (active_flow_always_answers (recognizes [])).
  - right. exists Rsvp, RsvpName. split; [reflexivity|]. split; [reflexivity|].
    intros ft' Hne. destruct ft'; [destruct Hne|..]; reflexivity.
  - discriminate.
Defined.

Lemma rsvp_conversation_witness :
  let fl := default_flow in
  let o := converse (onMessage (recognizes [candidate "25"])) fl ∅
             [action.rsvp; str " Ann"; str "25"; str "MIT"] in
  out_flow o = fl ∧
  out_profile o =
    <["school" := Prim (str "MIT")]> (<["age" := Num 25]> (<["name" := Prim (str "Ann")]> ∅)) ∧
  out_sent o =
    [Message "In order to RSVP you need to give out some information. What is your name?";
     Message "Welcome among us Ann.";
     Message "How old are you?";
     Message "I have your age as 25.";
     Message "What university are you from?";
     Message "Amazing, so many people coming from MIT.";
     Reply (str "You can already take a look at the documentation here: https://docs.microsoft.com/en-us/azure/bot-service/bot-service-debug-emulator?view=azure-bot-service-4.0")
           [getInternetAttachment];
     Message "Thanks for completing the RSVP Ann.";
     heroCardReply].
Proof.
  apply (rsvp_conversation (recognizes [candidate "25"]) friendQuestion.none cancelQuestion.none
           ∅ " Ann" (str "25") 25 "MIT").
  - apply not_a_label. vm_compute. reflexivity.
  - apply not_a_label. vm_compute. reflexivity.
  - apply not_a_label. vm_compute. reflexivity.
  - reflexivity.
Defined.

Lemma friend_and_cancel_conversations_witness :
  let friend := converse (onMessage (recognizes [])) default_flow ∅
                  [action.friend; str "Bob"; str "not an address"] in
  let cancel := converse (onMessage (recognizes [])) default_flow ∅
                  [action.cancel; str "Bob"] in
  out_flow friend = default_flow ∧
  out_profile friend =
    <["email" := Prim (str "not an address")]> (<["firenName" := Prim (str "Bob")]> ∅) ∧
  out_sent friend =
    [Message "What is the name of your friend?";
     Message "Great! What is your email address?";
     Message "Great, we'll have a lot of fun!";
     Message "An email to v-dalhay@microsoft.com has been sent. You'll receive a response by email within 24 hours.";
     heroCardReply] ∧
  out_flow cancel = default_flow ∧
  out_profile cancel = <["cancelName" := Prim (str "Bob")]> ∅ ∧
  out_sent cancel =
    [Message "What is your name to cancel your participation?";
     Message "Ok, let's cancel!";
     heroCardReply].
Proof.
  apply (friend_and_cancel_conversations (recognizes []) question.none friendQuestion.none
           cancelQuestion.none ∅ "Bob" "not an address").
  - apply not_a_label. vm_compute. reflexivity.
  - apply not_a_label. vm_compute. reflexivity.
Defined.

Lemma validateString_only_trims_witness :
  ∃ l t r,
    str "Ann Lee" = str t ∧ " Ann Lee  " = l +:+ t +:+ r ∧
    Forall (λ c, is_white_space c = true) (String.list_ascii_of_string l) ∧
    Forall (λ c, is_white_space c = true) (String.list_ascii_of_string r).
Proof.
  apply (validateString_only_trims " Ann Lee  " (str "Ann Lee")). reflexivity.
Defined.

Lemma validateAge_truncates_decimals_witness :
  validateAge (recognizes [candidate "120.9"]) (str "120.9") = Success 120.
Proof.
  apply (validateAge_truncates_decimals (recognizes [candidate "120.9"]) (str "120.9") "120" "9").
  reflexivity.
Defined.
